(** * Connection registry and routing of the WebRTC signalling relay

    Shallow embedding of [src/server.ts]: the three module-level maps
    [swarms], [peerIdToSocket] and [socketSwarmMap], the ["message"] handler
    installed for every connection, and [removeClient], which runs on
    ["close"] and on ["error"].

    - A [WebSocket] is compared by identity only; it is modelled as a [nat]
      handle ([conn]).
    - A JS [Map] iterates in insertion order, [set] on an existing key keeps
      its position; it is modelled as an association list ([JSMap]).
    - A JS [Set] is a duplicate-free list in insertion order ([JSSet]).
    - [JSON.parse] (the codec) is an external collaborator: a section
      variable [JSON_parse]; [None] is a thrown [SyntaxError].
    - [readyState === WebSocket.OPEN] is read from the transport at the time
      of each message: a function [isOpen] passed to the handler.
    - [ws.send(JSON.stringify(data))] is recorded as an outgoing pair
      (recipient, decoded message). *)

From Stdlib Require Import String List Bool Arith ZArith Lia.
Import ListNotations.
Open Scope string_scope.

(** ** JS [Map] and [Set] over a key type with boolean equality *)
Module JSMap.
Section Map.
Context {K V : Type} (eqb : K -> K -> bool).

(** [m.get(k)] *)
Fixpoint get (k : K) (m : list (K * V)) : option V :=
  match m with
  | [] => None
  | (k', v) :: m' => if eqb k k' then Some v else get k m'
  end.

(** [m.has(k)] *)
Definition has (k : K) (m : list (K * V)) : bool :=
  match get k m with Some _ => true | None => false end.

(** [m.set(k, v)]: an existing key keeps its position. *)
Definition set (k : K) (v : V) (m : list (K * V)) : list (K * V) :=
  if has k m
  then map (fun '(k', v') => if eqb k k' then (k', v) else (k', v')) m
  else m ++ [(k, v)].

(** [m.delete(k)] *)
Definition delete (k : K) (m : list (K * V)) : list (K * V) :=
  filter (fun '(k', _) => negb (eqb k k')) m.
End Map.

End JSMap.

Module JSSet.
Section Set_.
Context {A : Type} (eqb : A -> A -> bool).

(** [s.add(x)] *)
Definition add (x : A) (s : list A) : list A :=
  if existsb (eqb x) s then s else s ++ [x].

(** [s.delete(x)] *)
Definition delete (x : A) (s : list A) : list A :=
  filter (fun y => negb (eqb x y)) s.
End Set_.

End JSSet.

(** ** Decoded wire messages *)

Local Set Warnings "-register-all".

(** A JSON value as returned by [JSON.parse]. Only the truthiness of a
    number is ever observed by the relay, so numbers are kept as [Z]. *)
Inductive json : Type :=
| JNull
| JBool (b : bool)
| JNum (n : Z)
| JString (s : string)
| JArray (l : list json)
| JObject (fields : list (string * json)).

(** A property read [data.k]: [None] is [undefined]. Only objects carry the
    fields [infohash], [peerId] and [toPeerId]. *)
Definition field (data : json) (k : string) : option json :=
  match data with
  | JObject fs => JSMap.get String.eqb k fs
  | _ => None
  end.

(** [const { infohash, peerId, toPeerId } = data]: destructuring [null]
    throws a [TypeError] ([None]). *)
Definition destructure (data : json)
  : option (option json * option json * option json) :=
  match data with
  | JNull => None
  | _ => Some (field data "infohash", field data "peerId", field data "toPeerId")
  end.

(** JS truthiness of a property value ([!x] is [negb (truthy x)]). *)
Definition truthy (v : option json) : bool :=
  match v with
  | None | Some JNull => false
  | Some (JBool b) => b
  | Some (JNum n) => negb (Z.eqb n 0)
  | Some (JString s) => negb (String.eqb s "")
  | Some (JArray _) | Some (JObject _) => true
  end.

(** [typeof v === "string"] *)
Definition is_string (v : option json) : bool :=
  match v with Some (JString _) => true | _ => false end.

(** ** Registry state *)

Definition conn := nat.

Record state := mkState {
  swarms : list (string * list conn);          (* infohash -> Set<WebSocket> *)
  peerIdToSocket : list (string * conn);       (* peerId -> WebSocket *)
  socketSwarmMap : list (conn * list string)   (* WebSocket -> Set<string> *)
}.

Definition init : state := mkState [] [] [].

(** One [ws.send(JSON.stringify(data))]: recipient and decoded message. *)
Definition send : Type := conn * json.

(** Outcome of the message handler: it returns normally with the new
    state and the sends it made, or throws before any mutation. *)
Inductive outcome : Type :=
| Done (st : state) (sends : list send)
| Threw.

(** Members of the swarm of [h] ([swarms.get(h)], empty when absent). *)
Definition swarm_of (sw : list (string * list conn)) (h : string) : list conn :=
  match JSMap.get String.eqb h sw with Some s => s | None => [] end.

Definition members (st : state) (h : string) : list conn := swarm_of (swarms st) h.

(** Infohashes joined by [c] ([socketSwarmMap.get(c)], empty when absent). *)
Definition joined (st : state) (c : conn) : list string :=
  match JSMap.get Nat.eqb c (socketSwarmMap st) with Some hs => hs | None => [] end.

(** Is [c] tracked in [socketSwarmMap]? *)
Definition tracked (st : state) (c : conn) : bool :=
  JSMap.has Nat.eqb c (socketSwarmMap st).

Section Relay.

(** The codec: [JSON.parse(rawMessage.toString())]. *)
Variable JSON_parse : string -> option json.

(** [wss.on("connection", ws => { socketSwarmMap.set(ws, new Set()); ... })] *)
Definition onConnect (st : state) (ws : conn) : state :=
  mkState (swarms st) (peerIdToSocket st)
          (JSMap.set Nat.eqb ws [] (socketSwarmMap st)).

(** [ws.on("message", rawMessage => ...)] *)
Definition onMessage (isOpen : conn -> bool) (st : state) (ws : conn)
           (rawMessage : string) : outcome :=
  match JSON_parse rawMessage with
  | None => Done st []                              (* catch: return *)
  | Some data =>
    match destructure data with
    | None => Threw
    | Some (infohash, peerId, toPeerId) =>
      if negb (truthy infohash) || negb (truthy peerId)
         || negb (is_string infohash) || negb (is_string peerId)
      then Done st []
      else
        match infohash, peerId with
        | Some (JString ih), Some (JString pid) =>
          (* peerIdToSocket.set(peerId, ws) *)
          let peers := JSMap.set String.eqb pid ws (peerIdToSocket st) in
          (* if (!swarms.has(infohash)) swarms.set(infohash, new Set()) *)
          let sw1 := if JSMap.has String.eqb ih (swarms st) then swarms st
                     else JSMap.set String.eqb ih [] (swarms st) in
          (* const swarm = swarms.get(infohash)!; swarm.add(ws) *)
          let swarm := match JSMap.get String.eqb ih sw1 with
                       | Some s => s | None => [] end in
          let swarm' := JSSet.add Nat.eqb ws swarm in
          let sw2 := JSMap.set String.eqb ih swarm' sw1 in
          (* socketSwarmMap.get(ws)?.add(infohash) *)
          let ssm := match JSMap.get Nat.eqb ws (socketSwarmMap st) with
                     | Some hs => JSMap.set Nat.eqb ws
                                    (JSSet.add String.eqb ih hs) (socketSwarmMap st)
                     | None => socketSwarmMap st
                     end in
          let st' := mkState sw2 peers ssm in
          let unicast :=
            truthy toPeerId &&
            match toPeerId with
            | Some (JString t) => JSMap.has String.eqb t peers
            | _ => false            (* keys of peerIdToSocket are strings *)
            end in
          let sends :=
            if unicast then
              (* const targetSocket = peerIdToSocket.get(toPeerId)! *)
              match toPeerId with
              | Some (JString t) =>
                match JSMap.get String.eqb t peers with
                | Some target => if isOpen target then [(target, data)] else []
                | None => []
                end
              | _ => []
              end
            else
              (* swarm.forEach(client => if (client !== ws && OPEN) send) *)
              map (fun c => (c, data))
                  (filter (fun c => negb (Nat.eqb c ws) && isOpen c) swarm') in
          Done st' sends
        | _, _ => Done st []
        end
    end
  end.

(** One step of [joinedInfohashes.forEach] in [removeClient]. *)
Definition cleanup_swarm (ws : conn) (sw : list (string * list conn)) (h : string)
  : list (string * list conn) :=
  match JSMap.get String.eqb h sw with
  | Some s =>
    let s' := JSSet.delete Nat.eqb ws s in
    if Nat.eqb (length s') 0 then JSMap.delete String.eqb h sw
    else JSMap.set String.eqb h s' sw
  | None => sw
  end.

(** [removeClient(ws)] *)
Definition removeClient (st : state) (ws : conn) : state :=
  let sw := match JSMap.get Nat.eqb ws (socketSwarmMap st) with
            | Some hs => fold_left (cleanup_swarm ws) hs (swarms st)
            | None => swarms st
            end in
  let ssm := JSMap.delete Nat.eqb ws (socketSwarmMap st) in
  (* peerIdToSocket.forEach((socket, peerId) => { if (socket === ws) ... }) *)
  let disconnectedPeerId :=
    fold_left (fun acc '(pid, s) => if Nat.eqb s ws then Some pid else acc)
              (peerIdToSocket st) None in
  let peers := match disconnectedPeerId with
               | Some pid => if truthy (Some (JString pid))
                             then JSMap.delete String.eqb pid (peerIdToSocket st)
                             else peerIdToSocket st
               | None => peerIdToSocket st
               end in
  mkState sw peers ssm.

(** Transport events delivered to the registry. ["close"] and ["error"] both
    run [removeClient]. *)
Inductive event : Type :=
| EConnect (c : conn)
| EMessage (c : conn) (raw : string) (isOpen : conn -> bool)
| EDisconnect (c : conn).

(** An event's effect on the tables. An exception thrown by the message
    handler escapes it before any mutation, so the tables keep the values
    they had; [node_step] below adds that the exception is uncaught and
    ends the process. *)
Definition step (st : state) (e : event) : state * list send :=
  match e with
  | EConnect c => (onConnect st c, [])
  | EMessage c raw isOpen =>
    match onMessage isOpen st c raw with
    | Done st' sends => (st', sends)
    | Threw => (st, [])
    end
  | EDisconnect c => (removeClient st c, [])
  end.

Fixpoint run (st : state) (tr : list event) : state :=
  match tr with
  | [] => st
  | e :: tr' => run (fst (step st e)) tr'
  end.

(** The transport's lifecycle of a connection: ["connection"] is emitted
    once for a new socket, ["message"] only for a socket whose connection
    handler has run and that has not been closed. *)
Definition event_allowed (st : state) (e : event) : bool :=
  match e with
  | EConnect c => negb (tracked st c)
  | EMessage c _ _ => tracked st c
  | EDisconnect _ => true
  end.

Fixpoint lifecycle_ok (st : state) (tr : list event) : bool :=
  match tr with
  | [] => true
  | e :: tr' => event_allowed st e && lifecycle_ok (fst (step st e)) tr'
  end.

(** The Node process running the server. An exception that escapes a
    ["message"] listener (the destructuring of a decoded [null]) is not
    caught by the handler, by [ws] or by an ["uncaughtException"]
    handler, so the process exits and every connection and table is lost. *)
Inductive process : Type :=
| Running (st : state)
| Crashed.

Definition node_step (p : process) (e : event) : process :=
  match p with
  | Crashed => Crashed
  | Running st =>
    match e with
    | EMessage c raw isOpen =>
      match onMessage isOpen st c raw with
      | Done st' _ => Running st'
      | Threw => Crashed
      end
    | _ => Running (fst (step st e))
    end
  end.

Fixpoint node_run (p : process) (tr : list event) : process :=
  match tr with
  | [] => p
  | e :: tr' => node_run (node_step p e) tr'
  end.

End Relay.

(** ** Concrete payloads used to exercise the handlers *)

(** A wire object [{infohash, peerId, toPeerId?}]. *)
Definition sig_msg (ih pid : string) (to : option string) : json :=
  JObject ([("infohash", JString ih); ("peerId", JString pid)] ++
           match to with Some t => [("toPeerId", JString t)] | None => [] end).

(** A small codec: the raw frames ["A1"], ["A2"], ["B1"], ["BtoA"],
    ["AtoA"], ["CtoB"], ["null"], everything else undecodable. *)
Definition demo_parse (raw : string) : option json :=
  if String.eqb raw "A1" then Some (sig_msg "h1" "pA" None)
  else if String.eqb raw "A2" then Some (sig_msg "h1" "pA2" None)
  else if String.eqb raw "B1" then Some (sig_msg "h1" "pB" None)
  else if String.eqb raw "BtoA" then Some (sig_msg "h1" "pB" (Some "pA"))
  else if String.eqb raw "AtoA" then Some (sig_msg "h1" "pA" (Some "pA"))
  else if String.eqb raw "CtoB" then Some (sig_msg "h2" "pC" (Some "pB"))
  else if String.eqb raw "null" then Some JNull
  else None.

Definition all_open (_ : conn) : bool := true.

(** Valid decoded message: non-empty string [infohash] and [peerId]. *)
Definition valid_msg (data : json) (ih pid : string) : Prop :=
  field data "infohash" = Some (JString ih) /\ ih <> "" /\
  field data "peerId" = Some (JString pid) /\ pid <> "".

(** Bidirectional consistency of [swarms] and [socketSwarmMap]. *)
Definition registry_consistent (st : state) : Prop :=
  forall c h, In c (members st h) <-> In h (joined st c).

(** No swarm with an empty member set is kept in [swarms]. *)
Definition no_empty_swarm (st : state) : Prop :=
  forall h s, In (h, s) (swarms st) -> s <> [].

(** Every key of [peerIdToSocket] is a non-empty string. *)
Definition peer_keys_nonempty (st : state) : Prop :=
  forall p c, In (p, c) (peerIdToSocket st) -> p <> "".

(** The keys of [peerIdToSocket] are pairwise distinct (a JS [Map]). *)
Definition peer_keys_unique (st : state) : Prop :=
  NoDup (map fst (peerIdToSocket st)).

(** Every swarm's member set is duplicate-free (a JS [Set]). *)
Definition swarm_sets_nodup (st : state) : Prop :=
  forall h s, In (h, s) (swarms st) -> NoDup s.

(** The entry of [h] is absent, or holds only [ws]. *)
Definition only_ws (ws : conn) (sw : list (string * list conn)) (h : string) : Prop :=
  match JSMap.get String.eqb h sw with
  | None => True
  | Some s => forall c, In c s -> c = ws
  end.

(** Events used to exercise the handlers: [1] joins ["h1"] as ["pA"],
    [2] joins ["h1"] as ["pB"], [3] is connected but has sent nothing. *)
Definition demo_trace : list event :=
  [EConnect 1; EConnect 2; EConnect 3;
   EMessage 1 "A1" all_open; EMessage 2 "B1" all_open].

(** Connection [1] announces itself as ["pA"], then as ["pA2"], then
    closes. *)
Definition demo_trace_two_ids : list event :=
  [EConnect 1; EMessage 1 "A1" all_open; EMessage 1 "A2" all_open; EDisconnect 1].

(** ** Facts about the JS containers *)

Module JSMapFacts.
Section Facts.
Context {K V : Type} (eqb : K -> K -> bool).
Hypothesis eqb_spec : forall x y, reflect (x = y) (eqb x y).

Lemma get_app (k : K) (m1 m2 : list (K * V)) :
  JSMap.get eqb k (m1 ++ m2) =
  match JSMap.get eqb k m1 with Some v => Some v | None => JSMap.get eqb k m2 end.
Proof.
  induction m1 as [|[a b] m1 IH]; simpl; [reflexivity|].
  destruct (eqb k a); [reflexivity | exact IH].
Qed.

Lemma get_map_other (k k' : K) (v : V) (m : list (K * V)) :
  k <> k' ->
  JSMap.get eqb k (map (fun '(a, b) => if eqb k' a then (a, v) else (a, b)) m)
  = JSMap.get eqb k m.
Proof.
  intros Hne; induction m as [|[a b] m IH]; simpl; [reflexivity|].
  destruct (eqb_spec k' a) as [<-|Ha]; simpl.
  - destruct (eqb_spec k k'); [congruence | exact IH].
  - destruct (eqb k a); [reflexivity | exact IH].
Qed.

Lemma get_map_same (k : K) (v : V) (m : list (K * V)) :
  JSMap.has eqb k m = true ->
  JSMap.get eqb k (map (fun '(a, b) => if eqb k a then (a, v) else (a, b)) m)
  = Some v.
Proof.
  unfold JSMap.has; induction m as [|[a b] m IH]; simpl; [discriminate|].
  destruct (eqb_spec k a) as [<-|Ha]; simpl.
  - destruct (eqb_spec k k); congruence.
  - destruct (eqb_spec k a); [congruence|]. exact IH.
Qed.

Lemma get_set (k k' : K) (v : V) (m : list (K * V)) :
  JSMap.get eqb k (JSMap.set eqb k' v m) = if eqb k k' then Some v else JSMap.get eqb k m.
Proof.
  unfold JSMap.set. destruct (JSMap.has eqb k' m) eqn:Hh.
  - destruct (eqb_spec k k') as [->|Hne].
    + apply get_map_same; exact Hh.
    + apply get_map_other; exact Hne.
  - rewrite get_app. simpl.
    destruct (eqb_spec k k') as [->|Hne].
    + unfold JSMap.has in Hh. destruct (JSMap.get eqb k' m); [discriminate | reflexivity].
    + destruct (JSMap.get eqb k m); reflexivity.
Qed.

Lemma get_delete (k k' : K) (m : list (K * V)) :
  JSMap.get eqb k (JSMap.delete eqb k' m) = if eqb k k' then None else JSMap.get eqb k m.
Proof.
  unfold JSMap.delete; induction m as [|[a b] m IH]; simpl.
  - destruct (eqb k k'); reflexivity.
  - destruct (eqb_spec k' a) as [<-|Ha]; simpl.
    + rewrite IH. destruct (eqb_spec k k'); [reflexivity|].
      destruct (eqb_spec k k'); [congruence | reflexivity].
    + rewrite IH. destruct (eqb_spec k k') as [->|Hne].
      * destruct (eqb_spec k' a); [congruence | reflexivity].
      * reflexivity.
Qed.

Lemma get_none_not_in (k : K) (v : V) (m : list (K * V)) :
  JSMap.get eqb k m = None -> ~ In (k, v) m.
Proof.
  induction m as [|[a b] m IH]; simpl; [tauto|].
  destruct (eqb_spec k a) as [<-|Ha]; [discriminate|].
  intros Hg [Heq|Hin]; [congruence | exact (IH Hg Hin)].
Qed.

Lemma get_some_in (k : K) (v : V) (m : list (K * V)) :
  JSMap.get eqb k m = Some v -> In (k, v) m.
Proof.
  induction m as [|[a b] m IH]; simpl; [discriminate|].
  destruct (eqb_spec k a) as [<-|Ha]; [intros [= ->]; left; reflexivity|].
  intros H; right; exact (IH H).
Qed.

Lemma in_set (a k : K) (b v : V) (m : list (K * V)) :
  In (a, b) (JSMap.set eqb k v m) -> (a = k /\ b = v) \/ (In (a, b) m /\ a <> k).
Proof.
  unfold JSMap.set. destruct (JSMap.has eqb k m) eqn:Hh.
  - rewrite in_map_iff. intros [[a' b'] [Heq Hin]].
    destruct (eqb_spec k a') as [<-|Ha]; injection Heq as -> ->; auto.
  - rewrite in_app_iff; simpl. intros [Hin|[Heq|[]]].
    + right; split; [exact Hin|]. intros ->.
      unfold JSMap.has in Hh. destruct (JSMap.get eqb k m) eqn:Hg; [discriminate|].
      exact (get_none_not_in k b m Hg Hin).
    + injection Heq as -> ->; auto.
Qed.

Lemma keys_map_replace (k : K) (v : V) (m : list (K * V)) :
  map fst (map (fun '(a, b) => if eqb k a then (a, v) else (a, b)) m) = map fst m.
Proof.
  induction m as [|[a b] m IH]; simpl; [reflexivity|].
  destruct (eqb k a); simpl; rewrite IH; reflexivity.
Qed.

Lemma keys_set (k : K) (v : V) (m : list (K * V)) :
  NoDup (map fst m) -> NoDup (map fst (JSMap.set eqb k v m)).
Proof.
  intros Hn. unfold JSMap.set. destruct (JSMap.has eqb k m) eqn:Hh.
  - rewrite keys_map_replace; exact Hn.
  - rewrite map_app; simpl. apply NoDup_app; [exact Hn | constructor; [tauto | constructor] |].
    intros a Ha [->|[]]. apply in_map_iff in Ha as [[a' b'] [Ha' Hin]]; simpl in Ha'; subst a'.
    unfold JSMap.has in Hh. destruct (JSMap.get eqb a m) eqn:Hg; [discriminate|].
    exact (get_none_not_in a b' m Hg Hin).
Qed.

Lemma keys_delete (k : K) (m : list (K * V)) :
  NoDup (map fst m) -> NoDup (map fst (JSMap.delete eqb k m)).
Proof.
  unfold JSMap.delete. induction m as [|[a b] m IH]; simpl; intros Hn; [constructor|].
  apply NoDup_cons_iff in Hn as [Hnin Hn].
  destruct (eqb k a); simpl; [exact (IH Hn)|].
  constructor; [|exact (IH Hn)].
  intros Hin; apply Hnin. apply in_map_iff in Hin as [[a' b'] [Ha' Hin]]; simpl in Ha'; subst a'.
  apply filter_In in Hin as [Hin _]. apply in_map_iff; exists (a, b'); auto.
Qed.

Lemma unique_keys_in (k : K) (v1 v2 : V) (m : list (K * V)) :
  NoDup (map fst m) -> In (k, v1) m -> In (k, v2) m -> v1 = v2.
Proof.
  induction m as [|[a b] m IH]; simpl; [tauto|].
  intros Hn. apply NoDup_cons_iff in Hn as [Hnin Hn].
  intros [H1|H1] [H2|H2].
  - congruence.
  - injection H1 as -> ->. exfalso; apply Hnin, in_map_iff; exists (k, v2); auto.
  - injection H2 as -> ->. exfalso; apply Hnin, in_map_iff; exists (k, v1); auto.
  - exact (IH Hn H1 H2).
Qed.

Lemma in_delete (a k : K) (b : V) (m : list (K * V)) :
  In (a, b) (JSMap.delete eqb k m) -> In (a, b) m /\ a <> k.
Proof.
  unfold JSMap.delete; rewrite filter_In; intros [Hin Hf]; split; [exact Hin|].
  intros ->. destruct (eqb_spec k k); [discriminate | congruence].
Qed.
End Facts.
End JSMapFacts.

Module JSSetFacts.
Section Facts.
Context {A : Type} (eqb : A -> A -> bool).
Hypothesis eqb_spec : forall x y, reflect (x = y) (eqb x y).

Lemma in_add (x y : A) (s : list A) : In x (JSSet.add eqb y s) <-> x = y \/ In x s.
Proof.
  unfold JSSet.add. destruct (existsb (eqb y) s) eqn:He.
  - apply existsb_exists in He as [z [Hz Hyz]].
    destruct (eqb_spec y z) as [<-|]; [|discriminate].
    split; [tauto|]. intros [->|H]; assumption.
  - rewrite in_app_iff; simpl; intuition (subst; auto).
Qed.

Lemma add_nonempty (x : A) (s : list A) : JSSet.add eqb x s <> [].
Proof.
  intros H. assert (Hx : In x (JSSet.add eqb x s)) by (apply in_add; left; reflexivity).
  rewrite H in Hx; exact Hx.
Qed.

Lemma in_set_delete (x y : A) (s : list A) : In x (JSSet.delete eqb y s) <-> In x s /\ x <> y.
Proof.
  unfold JSSet.delete; rewrite filter_In.
  destruct (eqb_spec y x) as [<-|Hne]; simpl; intuition congruence.
Qed.
End Facts.
End JSSetFacts.

(** ** The message handler on a valid message *)

Lemma init_peer_keys : peer_keys_nonempty init.
Proof. intros p c []. Qed.

Lemma init_no_empty : no_empty_swarm init.
Proof. intros h s []. Qed.

Lemma init_swarm_nodup : swarm_sets_nodup init.
Proof. intros h s []. Qed.

Lemma init_consistent : registry_consistent init.
Proof. intros c h; unfold members, joined, swarm_of; simpl; tauto. Qed.

Lemma destructure_not_null (data : json) :
  data <> JNull ->
  destructure data = Some (field data "infohash", field data "peerId", field data "toPeerId").
Proof. destruct data; [congruence | reflexivity ..]. Qed.

Lemma valid_msg_not_null (data : json) (ih pid : string) :
  valid_msg data ih pid -> data <> JNull.
Proof. intros [H _] ->; discriminate H. Qed.

Lemma valid_guard (ih pid : string) :
  ih <> "" -> pid <> "" ->
  negb (truthy (Some (JString ih))) || negb (truthy (Some (JString pid)))
  || negb (is_string (Some (JString ih))) || negb (is_string (Some (JString pid)))
  = false.
Proof.
  intros H1 H2; simpl.
  apply String.eqb_neq in H1, H2; rewrite H1, H2; reflexivity.
Qed.

(** Open [onMessage] on a valid message: [Hst] gives the new state and
    [Hsends] the sends. *)
Ltac open_message Hp Hv Hrun Hst Hsends :=
  let Hih := fresh "Hih" in let Hne1 := fresh "Hne" in
  let Hpid := fresh "Hpid" in let Hne2 := fresh "Hne" in
  pose proof (valid_msg_not_null _ _ _ Hv) as Hnn;
  destruct Hv as (Hih & Hne1 & Hpid & Hne2);
  unfold onMessage in Hrun; rewrite Hp in Hrun;
  rewrite (destructure_not_null _ Hnn), Hih, Hpid in Hrun;
  rewrite (valid_guard _ _ Hne1 Hne2) in Hrun;
  cbv beta iota zeta in Hrun;
  injection Hrun as Hst Hsends.

Lemma swarm_of_set (sw : list (string * list conn)) (h h' : string) (s : list conn) :
  swarm_of (JSMap.set String.eqb h' s sw) h = if String.eqb h h' then s else swarm_of sw h.
Proof.
  unfold swarm_of; rewrite JSMapFacts.get_set by exact String.eqb_spec.
  destruct (String.eqb h h'); reflexivity.
Qed.

Lemma swarm_of_delete (sw : list (string * list conn)) (h h' : string) :
  swarm_of (JSMap.delete String.eqb h' sw) h = if String.eqb h h' then [] else swarm_of sw h.
Proof.
  unfold swarm_of; rewrite JSMapFacts.get_delete by exact String.eqb_spec.
  destruct (String.eqb h h'); reflexivity.
Qed.

(** One [forEach] step of [removeClient] removes [ws] from the swarm of [h0]. *)
Lemma cleanup_swarm_members ws sw h0 h c :
  In c (swarm_of (cleanup_swarm ws sw h0) h) <->
  In c (swarm_of sw h) /\ ~ (c = ws /\ h = h0).
Proof.
  unfold cleanup_swarm.
  destruct (JSMap.get String.eqb h0 sw) as [s|] eqn:Hg.
  - set (s' := JSSet.delete Nat.eqb ws s).
    assert (Hs' : forall x, In x s' <-> In x s /\ x <> ws)
      by (intros x; apply JSSetFacts.in_set_delete; exact Nat.eqb_spec).
    destruct (Nat.eqb_spec (length s') 0) as [Hl|Hl].
    + rewrite swarm_of_delete. destruct (String.eqb_spec h h0) as [->|Hne].
      * unfold swarm_of; rewrite Hg. apply length_zero_iff_nil in Hl.
        specialize (Hs' c); rewrite Hl in Hs'; simpl in Hs' |- *; tauto.
      * tauto.
    + rewrite swarm_of_set. destruct (String.eqb_spec h h0) as [->|Hne].
      * unfold swarm_of; rewrite Hg. rewrite Hs'; tauto.
      * tauto.
  - destruct (String.eqb_spec h h0) as [->|Hne].
    + unfold swarm_of; rewrite Hg; simpl; tauto.
    + tauto.
Qed.

Lemma fold_cleanup_members ws hs sw h c :
  In c (swarm_of (fold_left (cleanup_swarm ws) hs sw) h) <->
  In c (swarm_of sw h) /\ ~ (c = ws /\ In h hs).
Proof.
  revert sw; induction hs as [|h0 hs IH]; intros sw; simpl.
  - tauto.
  - rewrite IH, cleanup_swarm_members. intuition.
Qed.

(** The swarm table after [removeClient]. *)
Lemma removeClient_members st ws h c :
  In c (members (removeClient st ws) h) <->
  In c (members st h) /\ ~ (c = ws /\ In h (joined st ws)).
Proof.
  unfold members, joined, removeClient; simpl.
  destruct (JSMap.get Nat.eqb ws (socketSwarmMap st)) as [hs|].
  - apply fold_cleanup_members.
  - simpl; tauto.
Qed.

Lemma removeClient_joined st ws c :
  joined (removeClient st ws) c = if Nat.eqb c ws then [] else joined st c.
Proof.
  unfold joined, removeClient; simpl.
  rewrite JSMapFacts.get_delete by exact Nat.eqb_spec.
  destruct (Nat.eqb c ws); reflexivity.
Qed.

Lemma guard_false (fi fp : option json) :
  negb (truthy fi) || negb (truthy fp) || negb (is_string fi) || negb (is_string fp) = false ->
  exists ih pid, fi = Some (JString ih) /\ ih <> "" /\ fp = Some (JString pid) /\ pid <> "".
Proof.
  destruct fi as [[| | |ih| |]|], fp as [[| | |pid| |]|];
    cbn [truthy is_string]; rewrite ?orb_true_r; try discriminate.
  intros H. apply orb_false_elim in H as [H _]. apply orb_false_elim in H as [H _].
  apply orb_false_elim in H as [H1 H2]. apply negb_false_iff in H1, H2.
  exists ih, pid. apply negb_true_iff, String.eqb_neq in H1, H2. auto.
Qed.

Lemma fold_cleanup_no_empty ws hs (sw : list (string * list conn)) :
  (forall h s, In (h, s) sw -> s <> []) ->
  forall h s, In (h, s) (fold_left (cleanup_swarm ws) hs sw) -> s <> [].
Proof.
  revert sw; induction hs as [|h0 hs IH]; intros sw Hn; simpl; [exact Hn|].
  apply IH. intros h s Hin. unfold cleanup_swarm in Hin.
  destruct (JSMap.get String.eqb h0 sw) as [s0|]; [|exact (Hn _ _ Hin)].
  destruct (Nat.eqb_spec (length (JSSet.delete Nat.eqb ws s0)) 0) as [_|Hl].
  - apply (JSMapFacts.in_delete String.eqb String.eqb_spec) in Hin as [Hin _].
    exact (Hn _ _ Hin).
  - apply (JSMapFacts.in_set String.eqb String.eqb_spec) in Hin as [[-> ->]|[Hin _]].
    + intros Hnil; rewrite Hnil in Hl; exact (Hl eq_refl).
    + exact (Hn _ _ Hin).
Qed.

Lemma sw1_entries (P : list conn -> Prop) (sw : list (string * list conn)) ih :
  (forall h s, In (h, s) sw -> P s) -> P [] ->
  forall h s, In (h, s) (if JSMap.has String.eqb ih sw then sw
                         else JSMap.set String.eqb ih [] sw) -> P s.
Proof.
  intros Hsw Hnil h s. destruct (JSMap.has String.eqb ih sw); [apply Hsw|].
  intros Hin; apply (JSMapFacts.in_set String.eqb String.eqb_spec) in Hin
    as [[_ ->]|[Hin _]]; [exact Hnil | exact (Hsw _ _ Hin)].
Qed.

Lemma fold_cleanup_nodup ws hs (sw : list (string * list conn)) :
  (forall h s, In (h, s) sw -> NoDup s) ->
  forall h s, In (h, s) (fold_left (cleanup_swarm ws) hs sw) -> NoDup s.
Proof.
  revert sw; induction hs as [|h0 hs IH]; intros sw Hn; simpl; [exact Hn|].
  apply IH. intros h s Hin. unfold cleanup_swarm in Hin.
  destruct (JSMap.get String.eqb h0 sw) as [s0|] eqn:Hg; [|exact (Hn _ _ Hin)].
  destruct (Nat.eqb (length (JSSet.delete Nat.eqb ws s0)) 0).
  - apply (JSMapFacts.in_delete String.eqb String.eqb_spec) in Hin as [Hin _].
    exact (Hn _ _ Hin).
  - apply (JSMapFacts.in_set String.eqb String.eqb_spec) in Hin as [[-> ->]|[Hin _]].
    + apply NoDup_filter. apply JSMapFacts.get_some_in in Hg; [|exact String.eqb_spec].
      exact (Hn _ _ Hg).
    + exact (Hn _ _ Hin).
Qed.

(** A [forEach] step on another infohash leaves the entry of [h] alone. *)
Lemma cleanup_get_other ws sw h0 h :
  h <> h0 -> JSMap.get String.eqb h (cleanup_swarm ws sw h0) = JSMap.get String.eqb h sw.
Proof.
  intros Hne. unfold cleanup_swarm.
  apply String.eqb_neq in Hne.
  destruct (JSMap.get String.eqb h0 sw); [|reflexivity].
  destruct (Nat.eqb _ 0).
  - rewrite JSMapFacts.get_delete, Hne by exact String.eqb_spec; reflexivity.
  - rewrite JSMapFacts.get_set, Hne by exact String.eqb_spec; reflexivity.
Qed.

Lemma cleanup_get_self ws sw h :
  only_ws ws sw h -> JSMap.get String.eqb h (cleanup_swarm ws sw h) = None.
Proof.
  unfold only_ws, cleanup_swarm. destruct (JSMap.get String.eqb h sw) as [s|] eqn:Hg;
    [|intros _; exact Hg].
  intros Hall.
  assert (Hl : JSSet.delete Nat.eqb ws s = []).
  { destruct (JSSet.delete Nat.eqb ws s) as [|x r] eqn:Hd; [reflexivity|].
    assert (Hx : In x (JSSet.delete Nat.eqb ws s)) by (rewrite Hd; left; reflexivity).
    apply JSSetFacts.in_set_delete in Hx as [Hx Hne]; [|exact Nat.eqb_spec].
    exfalso; exact (Hne (Hall x Hx)). }
  rewrite Hl; simpl.
  rewrite JSMapFacts.get_delete, String.eqb_refl by exact String.eqb_spec; reflexivity.
Qed.

Lemma fold_cleanup_only_ws ws hs sw h :
  only_ws ws sw h -> only_ws ws (fold_left (cleanup_swarm ws) hs sw) h.
Proof.
  revert sw; induction hs as [|h0 hs IH]; intros sw Ho; simpl; [exact Ho|].
  apply IH. destruct (String.eqb_spec h h0) as [->|Hne].
  - unfold only_ws at 1. rewrite cleanup_get_self by exact Ho. exact I.
  - unfold only_ws. rewrite cleanup_get_other by exact Hne. exact Ho.
Qed.

Lemma fold_cleanup_deletes ws hs sw h :
  In h hs -> only_ws ws sw h ->
  JSMap.get String.eqb h (fold_left (cleanup_swarm ws) hs sw) = None.
Proof.
  revert sw; induction hs as [|h0 hs IH]; intros sw Hin Ho; simpl in *; [tauto|].
  destruct (String.eqb_spec h h0) as [->|Hne].
  - pose proof (fold_cleanup_only_ws ws hs (cleanup_swarm ws sw h0) h0) as Hf.
    unfold only_ws in Hf. rewrite cleanup_get_self in Hf by exact Ho.
    specialize (Hf I).
    destruct (JSMap.get String.eqb h0 (fold_left (cleanup_swarm ws) hs (cleanup_swarm ws sw h0)))
      as [s|] eqn:Hg; [|reflexivity].
    (* once deleted, the entry is never recreated *)
    clear Hf. revert Hg. generalize (cleanup_get_self ws sw h0 Ho).
    generalize (cleanup_swarm ws sw h0). clear.
    induction hs as [|h1 hs IH]; intros sw' Hn Hg; simpl in *; [congruence|].
    apply (IH (cleanup_swarm ws sw' h1)); [|exact Hg].
    destruct (String.eqb_spec h0 h1) as [->|Hne].
    + unfold cleanup_swarm; rewrite Hn; exact Hn.
    + rewrite cleanup_get_other by exact Hne; exact Hn.
  - destruct Hin as [->|Hin]; [congruence|].
    apply IH; [exact Hin|]. unfold only_ws. rewrite cleanup_get_other by exact Hne. exact Ho.
Qed.

Section MessageFacts.
Variable JSON_parse : string -> option json.

(** The routing decision of a valid message, as [onMessage] takes it. *)
Lemma onMessage_valid_sends isOpen st ws raw data ih pid st' sends :
  JSON_parse raw = Some data -> valid_msg data ih pid ->
  onMessage JSON_parse isOpen st ws raw = Done st' sends ->
  sends =
  match field data "toPeerId" with
  | Some (JString t) =>
    if negb (String.eqb t "") && JSMap.has String.eqb t (peerIdToSocket st') then
      match JSMap.get String.eqb t (peerIdToSocket st') with
      | Some target => if isOpen target then [(target, data)] else []
      | None => []
      end
    else map (fun c => (c, data))
             (filter (fun c => negb (Nat.eqb c ws) && isOpen c) (members st' ih))
  | _ => map (fun c => (c, data))
             (filter (fun c => negb (Nat.eqb c ws) && isOpen c) (members st' ih))
  end.
Proof.
  intros Hp Hv Hrun. open_message Hp Hv Hrun Hst Hsends.
  subst st' sends. unfold members, swarm_of; simpl.
  rewrite JSMapFacts.get_set by exact String.eqb_spec.
  rewrite String.eqb_refl.
  destruct (field data "toPeerId") as [[| | | | |]|];
    cbn [truthy]; rewrite ?andb_false_r; reflexivity.
Qed.

(** The tables after a valid message. *)
Lemma onMessage_valid_state isOpen st ws raw data ih pid st' sends :
  JSON_parse raw = Some data -> valid_msg data ih pid ->
  onMessage JSON_parse isOpen st ws raw = Done st' sends ->
  peerIdToSocket st' = JSMap.set String.eqb pid ws (peerIdToSocket st) /\
  (forall h, members st' h =
             if String.eqb h ih then JSSet.add Nat.eqb ws (members st ih)
             else members st h) /\
  socketSwarmMap st' =
    match JSMap.get Nat.eqb ws (socketSwarmMap st) with
    | Some hs => JSMap.set Nat.eqb ws (JSSet.add String.eqb ih hs) (socketSwarmMap st)
    | None => socketSwarmMap st
    end.
Proof.
  intros Hp Hv Hrun. open_message Hp Hv Hrun Hst Hsends.
  subst st'; simpl. split; [reflexivity|]. split; [|reflexivity].
  intros h; unfold members; simpl.
  rewrite swarm_of_set.
  destruct (String.eqb_spec h ih) as [->|Hne'].
  - f_equal. unfold JSMap.has. destruct (JSMap.get String.eqb ih (swarms st)) eqn:Hg.
    + rewrite Hg. unfold swarm_of; rewrite Hg; reflexivity.
    + rewrite JSMapFacts.get_set by exact String.eqb_spec.
      rewrite String.eqb_refl. unfold swarm_of; rewrite Hg; reflexivity.
  - destruct (JSMap.has String.eqb ih (swarms st)); [reflexivity|].
    rewrite swarm_of_set. apply String.eqb_neq in Hne'; rewrite Hne'; reflexivity.
Qed.

(** A handler run that returns either left the state alone and sent
    nothing, or processed a valid message. *)
Lemma onMessage_cases isOpen st ws raw st' sends :
  onMessage JSON_parse isOpen st ws raw = Done st' sends ->
  (st' = st /\ sends = []) \/
  exists data ih pid, JSON_parse raw = Some data /\ valid_msg data ih pid.
Proof.
  unfold onMessage. destruct (JSON_parse raw) as [data|]; [|intros [= <- <-]; left; auto].
  destruct (destructure data) as [[[fi fp] ft]|] eqn:Hd; [|discriminate].
  assert (Hf : fi = field data "infohash" /\ fp = field data "peerId")
    by (destruct data; simpl in Hd; try discriminate Hd; injection Hd as <- <- <-; auto).
  destruct Hf as [Hfi Hfp].
  destruct (negb (truthy fi) || negb (truthy fp) || negb (is_string fi)
            || negb (is_string fp)) eqn:G; [intros [= <- <-]; left; auto|].
  intros _. right. apply guard_false in G as (ih & pid & Hi & Hn1 & Hp & Hn2).
  exists data, ih, pid; subst fi fp; repeat split; auto.
Qed.

(** ** Preservation of the invariants by each event *)

Lemma onConnect_consistent st c :
  registry_consistent st -> tracked st c = false ->
  registry_consistent (onConnect st c).
Proof.
  intros Hc Ht c' h. unfold members, joined, onConnect in *; simpl.
  rewrite JSMapFacts.get_set by exact Nat.eqb_spec.
  destruct (Nat.eqb_spec c' c) as [->|Hne]; [|apply Hc].
  unfold tracked, JSMap.has in Ht.
  specialize (Hc c h). unfold joined in Hc.
  destruct (JSMap.get Nat.eqb c (socketSwarmMap st)); [discriminate|].
  simpl in *; tauto.
Qed.

Lemma onMessage_consistent isOpen st ws raw st' sends :
  registry_consistent st -> tracked st ws = true ->
  onMessage JSON_parse isOpen st ws raw = Done st' sends ->
  registry_consistent st'.
Proof.
  intros Hc Ht Hrun.
  destruct (onMessage_cases _ _ _ _ _ _ Hrun) as [[-> _]|(data & ih & pid & Hp & Hv)];
    [exact Hc|].
  destruct (onMessage_valid_state _ _ _ _ _ _ _ _ _ Hp Hv Hrun) as (_ & Hm & Hs).
  unfold tracked, JSMap.has in Ht.
  destruct (JSMap.get Nat.eqb ws (socketSwarmMap st)) as [hs|] eqn:Hg; [|discriminate].
  intros c h. rewrite Hm. unfold joined at 1. rewrite Hs.
  rewrite JSMapFacts.get_set by exact Nat.eqb_spec.
  specialize (Hc c). unfold joined in Hc.
  destruct (String.eqb_spec h ih) as [->|Hne].
  - rewrite JSSetFacts.in_add by exact Nat.eqb_spec.
    destruct (Nat.eqb_spec c ws) as [->|Hcw].
    + rewrite JSSetFacts.in_add by exact String.eqb_spec. tauto.
    + rewrite (Hc ih). tauto.
  - destruct (Nat.eqb_spec c ws) as [->|Hcw].
    + rewrite JSSetFacts.in_add by exact String.eqb_spec. rewrite (Hc h), Hg. intuition.
    + apply Hc.
Qed.

Lemma removeClient_consistent st ws :
  registry_consistent st -> registry_consistent (removeClient st ws).
Proof.
  intros Hc c h. rewrite removeClient_members, removeClient_joined.
  destruct (Nat.eqb_spec c ws) as [->|Hne].
  - simpl. rewrite (Hc ws h). tauto.
  - rewrite (Hc c h). intuition.
Qed.

Lemma step_consistent st e :
  registry_consistent st -> event_allowed st e = true ->
  registry_consistent (fst (step JSON_parse st e)).
Proof.
  destruct e as [c|c raw isOpen|c]; simpl; intros Hc Ha.
  - apply onConnect_consistent; [exact Hc|]. apply negb_true_iff; exact Ha.
  - destruct (onMessage JSON_parse isOpen st c raw) as [st' sends|] eqn:Hrun; [|exact Hc].
    exact (onMessage_consistent _ _ _ _ _ _ Hc Ha Hrun).
  - apply removeClient_consistent; exact Hc.
Qed.

Lemma run_consistent st tr :
  registry_consistent st -> lifecycle_ok JSON_parse st tr = true ->
  registry_consistent (run JSON_parse st tr).
Proof.
  revert st; induction tr as [|e tr IH]; intros st Hc Hl; simpl in *; [exact Hc|].
  apply andb_true_iff in Hl as [Ha Hl].
  exact (IH _ (step_consistent _ _ Hc Ha) Hl).
Qed.

Lemma onMessage_no_empty isOpen st ws raw st' sends :
  no_empty_swarm st -> onMessage JSON_parse isOpen st ws raw = Done st' sends ->
  no_empty_swarm st'.
Proof.
  intros Hn Hrun.
  destruct (onMessage_cases _ _ _ _ _ _ Hrun) as [[-> _]|(data & ih & pid & Hp & Hv)];
    [exact Hn|].
  open_message Hp Hv Hrun Hst Hsends. subst st'. intros h s Hin; simpl in Hin.
  apply (JSMapFacts.in_set String.eqb String.eqb_spec) in Hin as [[-> ->]|[Hin Hhne]].
  - apply JSSetFacts.add_nonempty; exact Nat.eqb_spec.
  - destruct (JSMap.has String.eqb ih (swarms st)); [exact (Hn _ _ Hin)|].
    apply (JSMapFacts.in_set String.eqb String.eqb_spec) in Hin as [[-> _]|[Hin _]];
      [congruence | exact (Hn _ _ Hin)].
Qed.

Lemma step_no_empty st e :
  no_empty_swarm st -> no_empty_swarm (fst (step JSON_parse st e)).
Proof.
  destruct e as [c|c raw isOpen|c]; simpl; intros Hn.
  - exact Hn.
  - destruct (onMessage JSON_parse isOpen st c raw) as [st' sends|] eqn:Hrun; [|exact Hn].
    exact (onMessage_no_empty _ _ _ _ _ _ Hn Hrun).
  - unfold no_empty_swarm, removeClient; simpl.
    destruct (JSMap.get Nat.eqb c (socketSwarmMap st)); [|exact Hn].
    apply fold_cleanup_no_empty; exact Hn.
Qed.

Lemma run_no_empty st tr :
  no_empty_swarm st -> no_empty_swarm (run JSON_parse st tr).
Proof.
  revert st; induction tr as [|e tr IH]; intros st Hn; simpl; [exact Hn|].
  apply IH, step_no_empty, Hn.
Qed.

Lemma onMessage_peer_keys isOpen st ws raw st' sends :
  peer_keys_nonempty st -> onMessage JSON_parse isOpen st ws raw = Done st' sends ->
  peer_keys_nonempty st'.
Proof.
  intros Hk Hrun.
  destruct (onMessage_cases _ _ _ _ _ _ Hrun) as [[-> _]|(data & ih & pid & Hp & Hv)];
    [exact Hk|].
  pose proof Hv as (_ & _ & _ & Hpid).
  destruct (onMessage_valid_state _ _ _ _ _ _ _ _ _ Hp Hv Hrun) as (Hpe & _ & _).
  intros p c Hin. rewrite Hpe in Hin.
  apply (JSMapFacts.in_set String.eqb String.eqb_spec) in Hin as [[-> _]|[Hin _]];
    [exact Hpid | exact (Hk _ _ Hin)].
Qed.

Lemma step_peer_keys st e :
  peer_keys_nonempty st -> peer_keys_nonempty (fst (step JSON_parse st e)).
Proof.
  destruct e as [c|c raw isOpen|c]; simpl; intros Hk.
  - exact Hk.
  - destruct (onMessage JSON_parse isOpen st c raw) as [st' sends|] eqn:Hrun; [|exact Hk].
    exact (onMessage_peer_keys _ _ _ _ _ _ Hk Hrun).
  - unfold peer_keys_nonempty, removeClient; simpl.
    intros p c' Hin.
    destruct (fold_left (fun acc '(pid, s) => if Nat.eqb s c then Some pid else acc)
                        (peerIdToSocket st) None) as [d|];
      [destruct (negb (String.eqb d ""))|];
      [apply (JSMapFacts.in_delete String.eqb String.eqb_spec) in Hin as [Hin _] | |];
      exact (Hk _ _ Hin).
Qed.

Lemma run_peer_keys st tr :
  peer_keys_nonempty st -> peer_keys_nonempty (run JSON_parse st tr).
Proof.
  revert st; induction tr as [|e tr IH]; intros st Hk; simpl; [exact Hk|].
  apply IH, step_peer_keys, Hk.
Qed.

End MessageFacts.

(** ** Peer bindings across [removeClient] *)

Section PeerFacts.
Variable JSON_parse : string -> option json.

Lemma init_peer_unique : peer_keys_unique init.
Proof. constructor. Qed.

Lemma step_peer_unique st e :
  peer_keys_unique st -> peer_keys_unique (fst (step JSON_parse st e)).
Proof.
  unfold peer_keys_unique.
  destruct e as [c|c raw isOpen|c]; simpl; intros Hu.
  - exact Hu.
  - destruct (onMessage JSON_parse isOpen st c raw) as [st' sends|] eqn:Hrun; [|exact Hu].
    destruct (onMessage_cases _ _ _ _ _ _ _ Hrun) as [[-> _]|(data & ih & pid & Hp & Hv)];
      [exact Hu|].
    destruct (onMessage_valid_state _ _ _ _ _ _ _ _ _ _ Hp Hv Hrun) as (Hpe & _ & _).
    cbn [fst]; rewrite Hpe. apply JSMapFacts.keys_set; [exact String.eqb_spec | exact Hu].
  - unfold removeClient; simpl.
    destruct (fold_left (fun acc '(pid, s) => if Nat.eqb s c then Some pid else acc)
                        (peerIdToSocket st) None) as [d|];
      [destruct (negb (String.eqb d ""))|]; [|exact Hu|exact Hu].
    apply JSMapFacts.keys_delete; exact Hu.
Qed.

Lemma run_peer_unique st tr :
  peer_keys_unique st -> peer_keys_unique (run JSON_parse st tr).
Proof.
  revert st; induction tr as [|e tr IH]; intros st Hu; simpl; [exact Hu|].
  apply IH, step_peer_unique, Hu.
Qed.

(** The [forEach] scan of [removeClient] only reports a peerId bound to [ws]. *)
Lemma scan_finds_bound ws (l : list (string * conn)) acc d :
  fold_left (fun acc '(pid, s) => if Nat.eqb s ws then Some pid else acc) l acc = Some d ->
  In (d, ws) l \/ acc = Some d.
Proof.
  revert acc; induction l as [|[p s] l IH]; intros acc H; simpl in *; [auto|].
  apply IH in H as [H|H]; [auto|].
  destruct (Nat.eqb_spec s ws) as [->|]; [injection H as ->; auto | auto].
Qed.

(** [removeClient ws] keeps every binding to another connection, in
    particular a peerId that [ws] once claimed and that was repointed to
    a newer connection. *)
Lemma removeClient_keeps_other_bindings st ws p c :
  peer_keys_unique st ->
  JSMap.get String.eqb p (peerIdToSocket st) = Some c -> c <> ws ->
  JSMap.get String.eqb p (peerIdToSocket (removeClient st ws)) = Some c.
Proof.
  intros Hu Hg Hne. unfold removeClient; simpl.
  destruct (fold_left (fun acc '(pid, s) => if Nat.eqb s ws then Some pid else acc)
                      (peerIdToSocket st) None) as [d|] eqn:Hd; [|exact Hg].
  destruct (negb (String.eqb d "")); [|exact Hg].
  rewrite JSMapFacts.get_delete by exact String.eqb_spec.
  destruct (String.eqb_spec p d) as [->|]; [|exact Hg].
  apply scan_finds_bound in Hd as [Hin|]; [|discriminate].
  apply JSMapFacts.get_some_in in Hg; [|exact String.eqb_spec].
  exfalso; apply Hne. exact (JSMapFacts.unique_keys_in _ _ _ _ Hu Hg Hin).
Qed.

End PeerFacts.

(** ** Properties of the registry *)

Section Claims.
Variable JSON_parse : string -> option json.

(** C1: for every sequence of connect, message and disconnect events the
    transport can deliver (a connection is announced once, and sends
    messages only between its connection handler and its cleanup), after
    each event a connection [c] is in the swarm of [h] iff [h] is in
    [c]'s membership set. Any prefix of such a sequence is one, so this
    holds after every event. *)
Theorem swarm_membership_bidirectional (tr : list event) :
  lifecycle_ok JSON_parse init tr = true ->
  forall c h, In c (members (run JSON_parse init tr) h) <->
              In h (joined (run JSON_parse init tr) c).
Proof.
  intros Hl. apply run_consistent; [exact init_consistent | exact Hl].
Qed.

(** C3: in any reachable state, a valid message whose [toPeerId] is
    bound (when the routing decision reads the table) to [c] is sent to
    [c] alone if [c] is open, and to no one otherwise. *)
Theorem unicast_to_bound_connection_only (tr : list event) isOpen ws raw data
        ih pid t c st' sends :
  JSON_parse raw = Some data -> valid_msg data ih pid ->
  field data "toPeerId" = Some (JString t) ->
  onMessage JSON_parse isOpen (run JSON_parse init tr) ws raw = Done st' sends ->
  JSMap.get String.eqb t (peerIdToSocket st') = Some c ->
  sends = if isOpen c then [(c, data)] else [].
Proof.
  intros Hp Hv Ht Hrun Hg.
  pose proof (onMessage_peer_keys _ _ _ _ _ _ _
                (run_peer_keys _ _ _ init_peer_keys) Hrun) as Hk.
  assert (Htne : t <> "")
    by exact (Hk _ _ (JSMapFacts.get_some_in _ String.eqb_spec _ _ _ Hg)).
  rewrite (onMessage_valid_sends _ _ _ _ _ _ _ _ _ _ Hp Hv Hrun), Ht.
  apply String.eqb_neq in Htne. unfold JSMap.has. rewrite Htne, Hg. reflexivity.
Qed.

(** C4: a valid message whose [toPeerId] is absent, not a string, or not
    bound in the table is sent, once per recipient and unchanged, to
    exactly the open members of its swarm other than the sender; the
    sender is never a recipient. *)
Theorem broadcast_to_open_other_members isOpen st ws raw data ih pid st' sends :
  JSON_parse raw = Some data -> valid_msg data ih pid ->
  (forall t, field data "toPeerId" = Some (JString t) ->
             JSMap.get String.eqb t (peerIdToSocket st') = None) ->
  onMessage JSON_parse isOpen st ws raw = Done st' sends ->
  (forall c m, In (c, m) sends <->
               In c (members st' ih) /\ c <> ws /\ isOpen c = true /\ m = data) /\
  ~ In ws (map fst sends).
Proof.
  intros Hp Hv Hnb Hrun.
  assert (Hs : sends = map (fun c => (c, data))
                 (filter (fun c => negb (Nat.eqb c ws) && isOpen c) (members st' ih))).
  { rewrite (onMessage_valid_sends _ _ _ _ _ _ _ _ _ _ Hp Hv Hrun).
    destruct (field data "toPeerId") as [[| | |t| |]|]; try reflexivity.
    unfold JSMap.has. rewrite (Hnb t eq_refl), andb_false_r. reflexivity. }
  assert (Hiff : forall c m, In (c, m) sends <->
                 In c (members st' ih) /\ c <> ws /\ isOpen c = true /\ m = data).
  { intros c m. rewrite Hs, in_map_iff. split.
    - intros [c' [[= <- <-] Hin]]. apply filter_In in Hin as [Hin Hf].
      apply andb_true_iff in Hf as [Hf Ho]. apply negb_true_iff, Nat.eqb_neq in Hf.
      auto.
    - intros (Hin & Hne & Ho & ->). exists c; split; [reflexivity|].
      apply filter_In; split; [exact Hin|].
      apply Nat.eqb_neq in Hne; rewrite Hne, Ho; reflexivity. }
  split; [exact Hiff|].
  rewrite in_map_iff. intros [[c m] [Hc Hin]]; simpl in Hc; subst c.
  apply Hiff in Hin as (_ & Hne & _); exact (Hne eq_refl).
Qed.

(** A payload that does not decode, or whose decoded value is not [null]
    and lacks a non-empty string [infohash] or a non-empty string
    [peerId], is discarded: the handler returns with the tables unchanged
    and sends nothing. *)
Lemma invalid_payload_discarded isOpen st ws raw :
  (JSON_parse raw = None \/
   exists data, JSON_parse raw = Some data /\ data <> JNull /\
                ~ exists ih pid, valid_msg data ih pid) ->
  onMessage JSON_parse isOpen st ws raw = Done st [].
Proof.
  intros Hbad. unfold onMessage.
  destruct (JSON_parse raw) as [data|] eqn:Hp; [|reflexivity].
  destruct Hbad as [Hn|(data' & Hd' & Hnn & Hnv)]; [discriminate|].
  assert (data' = data) as -> by congruence.
  destruct (destructure data) as [[[fi fp] ft]|] eqn:Hd;
    [|destruct data; try discriminate Hd; contradiction].
  assert (Hf : fi = field data "infohash" /\ fp = field data "peerId")
    by (destruct data; simpl in Hd; try discriminate Hd; injection Hd as <- <- <-; auto).
  destruct Hf as [Hfi Hfp].
  destruct (negb (truthy fi) || negb (truthy fp) || negb (is_string fi)
            || negb (is_string fp)) eqn:G; [reflexivity|].
  exfalso. apply guard_false in G as (ih & pid & Hi & Hn1 & Hq & Hn2).
  apply Hnv. exists ih, pid. subst fi fp. repeat split; assumption.
Qed.

(** A payload that decodes to [null] makes the handler throw. *)
Lemma onMessage_null_throws isOpen st ws raw :
  JSON_parse raw = Some JNull -> onMessage JSON_parse isOpen st ws raw = Threw.
Proof. intros Hp. unfold onMessage. rewrite Hp. reflexivity. Qed.

(** C6: after every event of any sequence, no swarm in [swarms] has an
    empty member set. *)
Theorem no_empty_swarm_after_each_event (tr : list event) :
  forall h s, In (h, s) (swarms (run JSON_parse init tr)) -> s <> [].
Proof. apply run_no_empty, init_no_empty. Qed.

(** C7: a valid message binds its [peerId] to the sending connection,
    overwriting an earlier binding, whatever the routing then does; the
    other bindings are untouched. *)
Theorem valid_message_binds_sender isOpen st ws raw data ih pid st' sends :
  JSON_parse raw = Some data -> valid_msg data ih pid ->
  onMessage JSON_parse isOpen st ws raw = Done st' sends ->
  forall p, JSMap.get String.eqb p (peerIdToSocket st') =
            if String.eqb p pid then Some ws
            else JSMap.get String.eqb p (peerIdToSocket st).
Proof.
  intros Hp Hv Hrun p.
  destruct (onMessage_valid_state _ _ _ _ _ _ _ _ _ _ Hp Hv Hrun) as (Hpe & _ & _).
  rewrite Hpe. apply JSMapFacts.get_set, String.eqb_spec.
Qed.

(** C9: a valid message whose [toPeerId] is the sender's own [peerId] is
    unicast back to the sender (when its socket is open), since the
    binding is written before the routing decision reads it. *)
Theorem self_addressed_message_returns_to_sender isOpen st ws raw data ih pid st' sends :
  JSON_parse raw = Some data -> valid_msg data ih pid ->
  field data "toPeerId" = Some (JString pid) ->
  onMessage JSON_parse isOpen st ws raw = Done st' sends ->
  sends = if isOpen ws then [(ws, data)] else [].
Proof.
  intros Hp Hv Ht Hrun.
  pose proof Hv as (_ & _ & _ & Hpne).
  destruct (onMessage_valid_state _ _ _ _ _ _ _ _ _ _ Hp Hv Hrun) as (Hpe & _ & _).
  rewrite (onMessage_valid_sends _ _ _ _ _ _ _ _ _ _ Hp Hv Hrun), Ht, Hpe.
  unfold JSMap.has.
  rewrite JSMapFacts.get_set, String.eqb_refl by exact String.eqb_spec.
  apply String.eqb_neq in Hpne; rewrite Hpne. reflexivity.
Qed.

(** C10: unicast reads only the peer-binding table: in any reachable
    state, a valid message whose [toPeerId] is bound to an open
    connection [c] is delivered to [c], whatever the swarms [c] belongs
    to (no membership hypothesis is made). *)
Theorem unicast_independent_of_membership (tr : list event) isOpen ws raw data
        ih pid t c st' sends :
  JSON_parse raw = Some data -> valid_msg data ih pid ->
  field data "toPeerId" = Some (JString t) ->
  onMessage JSON_parse isOpen (run JSON_parse init tr) ws raw = Done st' sends ->
  JSMap.get String.eqb t (peerIdToSocket st') = Some c ->
  isOpen c = true ->
  sends = [(c, data)].
Proof.
  intros Hp Hv Ht Hrun Hg Ho.
  pose proof (onMessage_peer_keys _ _ _ _ _ _ _
                (run_peer_keys _ _ _ init_peer_keys) Hrun) as Hk.
  assert (Htne : t <> "")
    by exact (Hk _ _ (JSMapFacts.get_some_in _ String.eqb_spec _ _ _ Hg)).
  rewrite (onMessage_valid_sends _ _ _ _ _ _ _ _ _ _ Hp Hv Hrun), Ht.
  apply String.eqb_neq in Htne. unfold JSMap.has. rewrite Htne, Hg, Ho. reflexivity.
Qed.

End Claims.

(** While the process is running, its tables are those that [run]
    computes, so the theorems about [run] hold for every state the
    running server reaches. *)
Lemma node_run_running JSON_parse st tr st' :
  node_run JSON_parse (Running st) tr = Running st' -> st' = run JSON_parse st tr.
Proof.
  revert st; induction tr as [|e tr IH]; intros st H; [injection H as <-; reflexivity|].
  cbn [node_run] in H. cbn [run].
  assert (Hc : forall tr', node_run JSON_parse Crashed tr' <> Running st')
    by (intros tr'; induction tr' as [|e' tr' IH']; [discriminate|exact IH']).
  destruct e as [c|c raw isOpen|c]; cbn [node_step] in H; try exact (IH _ H).
  cbn [step]. destruct (onMessage JSON_parse isOpen st c raw);
    [exact (IH _ H) | exfalso; exact (Hc _ H)].
Qed.

(** ** Cleanup of peer bindings on concrete runs *)

(** C2: [removeClient] keeps only the last peerId that its scan finds
    bound to the socket: after connection [1] announced ["pA"] and then
    ["pA2"] and closed, ["pA2"] is removed but ["pA"] still points to
    the closed connection [1]. *)
Theorem disconnect_leaves_stale_binding :
  lifecycle_ok demo_parse init demo_trace_two_ids = true /\
  JSMap.get String.eqb "pA" (peerIdToSocket (run demo_parse init demo_trace_two_ids))
    = Some 1 /\
  JSMap.get String.eqb "pA2" (peerIdToSocket (run demo_parse init demo_trace_two_ids))
    = None.
Proof. vm_compute. repeat split. Qed.

(** C8: on the same run, a second [removeClient 1] (as when ["error"] is
    followed by ["close"]) is not a no-op: it removes the binding of
    ["pA"] that the first call left behind. *)
Theorem second_disconnect_changes_bindings :
  let st := run demo_parse init demo_trace_two_ids in
  peerIdToSocket (removeClient st 1) <> peerIdToSocket st /\
  JSMap.get String.eqb "pA" (peerIdToSocket (removeClient st 1)) = None.
Proof. vm_compute. split; [discriminate | reflexivity]. Qed.

(** C5: a payload that decodes to JSON [null] is not discarded silently.
    [const { infohash, peerId, toPeerId } = data] throws a TypeError that
    nothing catches, so the process exits. On the demo run, the frame
    ["null"] from connection [1] ends the server, where a silent discard
    would leave it running with the tables reached by [demo_trace]. *)
Theorem null_payload_crashes_server :
  demo_parse "null" = Some JNull /\
  lifecycle_ok demo_parse init (demo_trace ++ [EMessage 1 "null" all_open]) = true /\
  onMessage demo_parse all_open (run demo_parse init demo_trace) 1 "null" = Threw /\
  node_run demo_parse (Running init) demo_trace = Running (run demo_parse init demo_trace) /\
  node_run demo_parse (Running init) (demo_trace ++ [EMessage 1 "null" all_open]) = Crashed.
Proof. vm_compute. repeat split. Qed.

(** ** Witnesses on concrete runs *)

Lemma swarm_membership_bidirectional_witness :
  lifecycle_ok demo_parse init (demo_trace ++ [EDisconnect 1]) = true /\
  (In 2 (members (run demo_parse init (demo_trace ++ [EDisconnect 1])) "h1") <->
   In "h1" (joined (run demo_parse init (demo_trace ++ [EDisconnect 1])) 2)).
Proof.
  split; [vm_compute; reflexivity|].
  apply (swarm_membership_bidirectional demo_parse (demo_trace ++ [EDisconnect 1])).
  vm_compute; reflexivity.
Defined.

Lemma unicast_to_bound_connection_only_witness :
  snd (step demo_parse (run demo_parse init demo_trace) (EMessage 2 "BtoA" all_open))
  = [(1, sig_msg "h1" "pB" (Some "pA"))].
Proof.
  apply (unicast_to_bound_connection_only demo_parse demo_trace all_open 2 "BtoA"
           (sig_msg "h1" "pB" (Some "pA")) "h1" "pB" "pA" 1
           (fst (step demo_parse (run demo_parse init demo_trace) (EMessage 2 "BtoA" all_open)))
           (snd (step demo_parse (run demo_parse init demo_trace) (EMessage 2 "BtoA" all_open)))).
  - reflexivity.
  - unfold valid_msg; repeat split; [discriminate | discriminate].
  - reflexivity.
  - vm_compute; reflexivity.
  - vm_compute; reflexivity.
Defined.

Lemma broadcast_to_open_other_members_witness :
  let st' := fst (step demo_parse (run demo_parse init demo_trace) (EMessage 1 "A1" all_open)) in
  let sends := snd (step demo_parse (run demo_parse init demo_trace) (EMessage 1 "A1" all_open)) in
  (forall c m, In (c, m) sends <->
     In c (members st' "h1") /\ c <> 1 /\ all_open c = true /\ m = sig_msg "h1" "pA" None) /\
  ~ In 1 (map fst sends).
Proof.
  intros st' sends.
  apply (broadcast_to_open_other_members demo_parse all_open (run demo_parse init demo_trace)
           1 "A1" (sig_msg "h1" "pA" None) "h1" "pA" st' sends).
  - reflexivity.
  - unfold valid_msg; repeat split; [discriminate | discriminate].
  - intros t Ht; vm_compute in Ht; discriminate Ht.
  - vm_compute; reflexivity.
Defined.

Lemma no_empty_swarm_after_each_event_witness :
  In ("h1", [1; 2]) (swarms (run demo_parse init demo_trace)) /\ [1; 2] <> [].
Proof.
  assert (H : In ("h1", [1; 2]) (swarms (run demo_parse init demo_trace)))
    by (vm_compute; left; reflexivity).
  split; [exact H|].
  exact (no_empty_swarm_after_each_event demo_parse demo_trace "h1" [1; 2] H).
Defined.

Lemma valid_message_binds_sender_witness :
  JSMap.get String.eqb "pA"
    (peerIdToSocket (fst (step demo_parse (run demo_parse init demo_trace)
                               (EMessage 3 "A1" all_open))))
  = if String.eqb "pA" "pA" then Some 3
    else JSMap.get String.eqb "pA" (peerIdToSocket (run demo_parse init demo_trace)).
Proof.
  apply (valid_message_binds_sender demo_parse all_open (run demo_parse init demo_trace)
           3 "A1" (sig_msg "h1" "pA" None) "h1" "pA"
           (fst (step demo_parse (run demo_parse init demo_trace) (EMessage 3 "A1" all_open)))
           (snd (step demo_parse (run demo_parse init demo_trace) (EMessage 3 "A1" all_open)))).
  - reflexivity.
  - unfold valid_msg; repeat split; [discriminate | discriminate].
  - vm_compute; reflexivity.
Defined.

Lemma self_addressed_message_returns_to_sender_witness :
  snd (step demo_parse (run demo_parse init demo_trace) (EMessage 1 "AtoA" all_open))
  = [(1, sig_msg "h1" "pA" (Some "pA"))].
Proof.
  apply (self_addressed_message_returns_to_sender demo_parse all_open
           (run demo_parse init demo_trace) 1 "AtoA" (sig_msg "h1" "pA" (Some "pA")) "h1" "pA"
           (fst (step demo_parse (run demo_parse init demo_trace) (EMessage 1 "AtoA" all_open)))
           (snd (step demo_parse (run demo_parse init demo_trace) (EMessage 1 "AtoA" all_open)))).
  - reflexivity.
  - unfold valid_msg; repeat split; [discriminate | discriminate].
  - reflexivity.
  - vm_compute; reflexivity.
Defined.

(** Connection [3] sends on ["h2"] to ["pB"]; connection [2] is only in
    ["h1"], yet receives the message. *)
Lemma unicast_independent_of_membership_witness :
  let st' := fst (step demo_parse (run demo_parse init demo_trace) (EMessage 3 "CtoB" all_open)) in
  let sends := snd (step demo_parse (run demo_parse init demo_trace) (EMessage 3 "CtoB" all_open)) in
  ~ In 2 (members st' "h2") /\ sends = [(2, sig_msg "h2" "pC" (Some "pB"))].
Proof.
  intros st' sends. split; [vm_compute; intros [H|[]]; discriminate H|].
  apply (unicast_independent_of_membership demo_parse demo_trace all_open 3 "CtoB"
           (sig_msg "h2" "pC" (Some "pB")) "h2" "pC" "pB" 2 st' sends).
  - reflexivity.
  - unfold valid_msg; repeat split; [discriminate | discriminate].
  - reflexivity.
  - vm_compute; reflexivity.
  - vm_compute; reflexivity.
  - reflexivity.
Defined.

(** ** Further properties of the handlers *)

Lemma map_delete_absent {K V : Type} (eqb : K -> K -> bool)
      (eqb_spec : forall x y, reflect (x = y) (eqb x y)) (k : K) (m : list (K * V)) :
  JSMap.get eqb k m = None -> JSMap.delete eqb k m = m.
Proof.
  unfold JSMap.delete; induction m as [|[a b] m IH]; simpl; [reflexivity|].
  destruct (eqb_spec k a) as [->|Hne]; [discriminate|].
  intros Hg; simpl; rewrite (IH Hg); reflexivity.
Qed.

Lemma map_get_in_some {K V : Type} (eqb : K -> K -> bool)
      (eqb_spec : forall x y, reflect (x = y) (eqb x y)) (k : K) (v : V) (m : list (K * V)) :
  NoDup (map fst m) -> In (k, v) m -> JSMap.get eqb k m = Some v.
Proof.
  intros Hu Hin.
  destruct (JSMap.get eqb k m) as [v'|] eqn:Hg.
  - apply JSMapFacts.get_some_in in Hg; [|exact eqb_spec].
    f_equal. exact (JSMapFacts.unique_keys_in _ _ _ _ Hu Hg Hin).
  - exfalso. exact (JSMapFacts.get_none_not_in _ eqb_spec _ _ _ Hg Hin).
Qed.

Lemma set_add_nodup (ws : conn) (s : list conn) :
  NoDup s -> NoDup (JSSet.add Nat.eqb ws s).
Proof.
  intros Hn; unfold JSSet.add. destruct (existsb (Nat.eqb ws) s) eqn:He; [exact Hn|].
  apply NoDup_app; [exact Hn | constructor; [tauto | constructor] |].
  intros a Ha [->|[]]. assert (existsb (Nat.eqb a) s = true)
    by (apply existsb_exists; exists a; split; [exact Ha | apply Nat.eqb_refl]).
  congruence.
Qed.

(** The scan of [removeClient] ends on its initial value, or on a peerId
    bound to [ws]. *)
Lemma scan_result ws (l : list (string * conn)) acc :
  fold_left (fun acc '(pid, s) => if Nat.eqb s ws then Some pid else acc) l acc = acc \/
  exists d, fold_left (fun acc '(pid, s) => if Nat.eqb s ws then Some pid else acc) l acc
            = Some d /\ In (d, ws) l.
Proof.
  revert acc; induction l as [|[p s] l IH]; intros acc; simpl; [auto|].
  destruct (IH (if Nat.eqb s ws then Some p else acc)) as [H|(d & Hd & Hin)].
  - rewrite H. destruct (Nat.eqb_spec s ws) as [->|]; [right; exists p; auto | auto].
  - right; exists d; auto.
Qed.

(** If some peerId is bound to [ws], the scan finds one. *)
Lemma scan_some ws (l : list (string * conn)) acc p :
  In (p, ws) l ->
  exists d, fold_left (fun acc '(pid, s) => if Nat.eqb s ws then Some pid else acc) l acc
            = Some d /\ In (d, ws) l.
Proof.
  revert acc; induction l as [|[q s] l IH]; intros acc Hin; simpl in *; [tauto|].
  destruct Hin as [[= -> ->]|Hin].
  - rewrite Nat.eqb_refl.
    destruct (scan_result ws l (Some p)) as [H|(d & Hd & Hin)].
    + exists p; rewrite H; auto.
    + exists d; auto.
  - destruct (IH (if Nat.eqb s ws then Some q else acc) Hin) as (d & Hd & Hin').
    exists d; auto.
Qed.

(** [removeClient] on a connection with no membership entry and no
    binding changes nothing. *)
Lemma removeClient_noop st ws :
  JSMap.get Nat.eqb ws (socketSwarmMap st) = None ->
  (forall q, ~ In (q, ws) (peerIdToSocket st)) ->
  removeClient st ws = st.
Proof.
  intros Hg Hb. unfold removeClient. rewrite Hg.
  rewrite (map_delete_absent _ Nat.eqb_spec _ _ Hg).
  destruct (scan_result ws (peerIdToSocket st) None) as [H|(d & _ & Hin)];
    [|exfalso; exact (Hb d Hin)].
  rewrite H. destruct st; reflexivity.
Qed.

Lemma two_distinct_in {A : Type} (x y : A) (l : list A) :
  In x l -> In y l -> x <> y -> 2 <= length l.
Proof.
  induction l as [|a l IH]; simpl; [tauto|].
  intros [->|Hx] [->|Hy] Hne; try congruence.
  - destruct l; [destruct Hy | simpl; lia].
  - destruct l; [destruct Hx | simpl; lia].
  - specialize (IH Hx Hy Hne); lia.
Qed.

Section MoreFacts.
Variable JSON_parse : string -> option json.

(** The sends of a valid message whose [toPeerId] resolves to no binding. *)
Lemma onMessage_broadcast_sends isOpen st ws raw data ih pid st' sends :
  JSON_parse raw = Some data -> valid_msg data ih pid ->
  (forall t, field data "toPeerId" = Some (JString t) ->
             JSMap.get String.eqb t (peerIdToSocket st') = None) ->
  onMessage JSON_parse isOpen st ws raw = Done st' sends ->
  sends = map (fun c => (c, data))
            (filter (fun c => negb (Nat.eqb c ws) && isOpen c) (members st' ih)).
Proof.
  intros Hp Hv Hnb Hrun.
  rewrite (onMessage_valid_sends _ _ _ _ _ _ _ _ _ _ Hp Hv Hrun).
  destruct (field data "toPeerId") as [[| | |t| |]|]; try reflexivity.
  unfold JSMap.has. rewrite (Hnb t eq_refl), andb_false_r. reflexivity.
Qed.

Lemma onMessage_swarm_nodup isOpen st ws raw st' sends :
  swarm_sets_nodup st -> onMessage JSON_parse isOpen st ws raw = Done st' sends ->
  swarm_sets_nodup st'.
Proof.
  intros Hn Hrun.
  destruct (onMessage_cases _ _ _ _ _ _ _ Hrun) as [[-> _]|(data & ih & pid & Hp & Hv)];
    [exact Hn|].
  open_message Hp Hv Hrun Hst Hsends. subst st'. intros h s Hin; simpl in Hin.
  pose proof (sw1_entries (@NoDup conn) (swarms st) ih Hn (NoDup_nil _)) as H1.
  apply (JSMapFacts.in_set String.eqb String.eqb_spec) in Hin as [[-> ->]|[Hin _]].
  - apply set_add_nodup.
    destruct (JSMap.get String.eqb ih _) as [s0|] eqn:Hg; [|constructor].
    apply JSMapFacts.get_some_in in Hg; [exact (H1 _ _ Hg) | exact String.eqb_spec].
  - exact (H1 _ _ Hin).
Qed.

Lemma run_swarm_nodup st tr :
  swarm_sets_nodup st -> swarm_sets_nodup (run JSON_parse st tr).
Proof.
  revert st; induction tr as [|e tr IH]; intros st Hn; simpl; [exact Hn|].
  apply IH. destruct e as [c|c raw isOpen|c]; simpl.
  - exact Hn.
  - destruct (onMessage JSON_parse isOpen st c raw) as [st' sends|] eqn:Hrun; [|exact Hn].
    exact (onMessage_swarm_nodup _ _ _ _ _ _ Hn Hrun).
  - unfold swarm_sets_nodup, removeClient; simpl.
    destruct (JSMap.get Nat.eqb c (socketSwarmMap st)); [|exact Hn].
    apply fold_cleanup_nodup; exact Hn.
Qed.

End MoreFacts.

(** X1: [removeClient] on a socket that has no entry in [socketSwarmMap]
    (the [if (joinedInfohashes)] guard) leaves [swarms] and
    [socketSwarmMap] as they are. *)
Theorem removeClient_untracked_keeps_tables st ws :
  tracked st ws = false ->
  swarms (removeClient st ws) = swarms st /\
  socketSwarmMap (removeClient st ws) = socketSwarmMap st.
Proof.
  unfold tracked, JSMap.has. intros Ht.
  destruct (JSMap.get Nat.eqb ws (socketSwarmMap st)) eqn:Hg; [discriminate|].
  unfold removeClient; rewrite Hg; simpl. split; [reflexivity|].
  exact (map_delete_absent _ Nat.eqb_spec _ _ Hg).
Qed.

(** X2: [removeClient ws] changes no other connection's swarm
    memberships or membership set. *)
Theorem removeClient_isolates_others st ws c :
  c <> ws ->
  (forall h, In c (members (removeClient st ws) h) <-> In c (members st h)) /\
  joined (removeClient st ws) c = joined st c.
Proof.
  intros Hne. split.
  - intros h. rewrite removeClient_members. intuition.
  - rewrite removeClient_joined. apply Nat.eqb_neq in Hne; rewrite Hne; reflexivity.
Qed.

Section Extras.
Variable JSON_parse : string -> option json.

(** Only a new ["connection"] event for [ws] gives it a
    [socketSwarmMap] entry again. *)
Lemma run_keeps_untracked st tr ws :
  ~ In (EConnect ws) tr ->
  JSMap.get Nat.eqb ws (socketSwarmMap st) = None ->
  JSMap.get Nat.eqb ws (socketSwarmMap (run JSON_parse st tr)) = None.
Proof.
  revert st; induction tr as [|e tr IH]; intros st Hn Ht; [exact Ht|].
  cbn [run]. apply IH; [intros H; apply Hn; right; exact H|].
  destruct e as [c|c raw isOpen|c]; cbn [step fst].
  - cbn [onConnect socketSwarmMap].
    rewrite JSMapFacts.get_set by exact Nat.eqb_spec.
    destruct (Nat.eqb_spec ws c) as [->|_]; [exfalso; apply Hn; left; reflexivity|exact Ht].
  - destruct (onMessage JSON_parse isOpen st c raw) as [st' sends|] eqn:Hm; [|exact Ht].
    cbn [fst].
    destruct (onMessage_cases _ _ _ _ _ _ _ Hm) as [[-> _]|(data & ih & pid & Hp & Hv)];
      [exact Ht|].
    destruct (onMessage_valid_state _ _ _ _ _ _ _ _ _ _ Hp Hv Hm) as (_ & _ & Hs).
    rewrite Hs. destruct (JSMap.get Nat.eqb c (socketSwarmMap st)) eqn:Hg; [|exact Ht].
    rewrite JSMapFacts.get_set by exact Nat.eqb_spec.
    destruct (Nat.eqb_spec ws c) as [->|_]; [congruence|exact Ht].
  - unfold removeClient; cbn [socketSwarmMap].
    rewrite JSMapFacts.get_delete by exact Nat.eqb_spec.
    destruct (Nat.eqb ws c); [reflexivity|exact Ht].
Qed.

Lemma run_app st tr1 tr2 :
  run JSON_parse st (tr1 ++ tr2) = run JSON_parse (run JSON_parse st tr1) tr2.
Proof. revert st; induction tr1 as [|e tr1 IH]; intros st; [reflexivity|apply IH]. Qed.

(** X3: once [ws] has been cleaned up by [removeClient], no later valid
    message whose [toPeerId] resolves to no binding is sent to it, after
    any events in which [ws] does not connect again: it is in no swarm
    any more. *)
Theorem disconnected_never_broadcast_target (tr1 tr2 : list event) ws isOpen c raw data
        ih pid st' sends :
  lifecycle_ok JSON_parse init (tr1 ++ EDisconnect ws :: tr2) = true ->
  ~ In (EConnect ws) tr2 ->
  JSON_parse raw = Some data -> valid_msg data ih pid ->
  (forall t, field data "toPeerId" = Some (JString t) ->
             JSMap.get String.eqb t (peerIdToSocket st') = None) ->
  onMessage JSON_parse isOpen (run JSON_parse init (tr1 ++ EDisconnect ws :: tr2)) c raw
    = Done st' sends ->
  ~ In ws (map fst sends).
Proof.
  intros Hl Hnc Hp Hv Hnb Hrun Hin.
  pose proof (run_consistent _ _ _ init_consistent Hl) as Hc.
  assert (Hu : JSMap.get Nat.eqb ws
                 (socketSwarmMap (run JSON_parse init (tr1 ++ EDisconnect ws :: tr2))) = None).
  { rewrite run_app. cbn [run]. apply run_keeps_untracked; [exact Hnc|].
    cbn [step fst]. unfold removeClient; cbn [socketSwarmMap].
    rewrite JSMapFacts.get_delete, Nat.eqb_refl by exact Nat.eqb_spec. reflexivity. }
  rewrite (onMessage_broadcast_sends _ _ _ _ _ _ _ _ _ _ Hp Hv Hnb Hrun) in Hin.
  rewrite map_map, map_id, filter_In in Hin. destruct Hin as [Hin Hf].
  apply andb_true_iff in Hf as [Hf _]. apply negb_true_iff, Nat.eqb_neq in Hf.
  destruct (onMessage_valid_state _ _ _ _ _ _ _ _ _ _ Hp Hv Hrun) as (_ & Hm & _).
  rewrite Hm, String.eqb_refl in Hin.
  apply (JSSetFacts.in_add Nat.eqb Nat.eqb_spec) in Hin as [Heq|Hin]; [exact (Hf Heq)|].
  apply Hc in Hin. unfold joined in Hin. rewrite Hu in Hin. exact Hin.
Qed.

(** X4: a valid message from [ws] changes no other connection's swarm
    memberships or membership set. *)
Theorem onMessage_isolates_others isOpen st ws raw data ih pid st' sends c :
  JSON_parse raw = Some data -> valid_msg data ih pid ->
  onMessage JSON_parse isOpen st ws raw = Done st' sends ->
  c <> ws ->
  (forall h, In c (members st' h) <-> In c (members st h)) /\ joined st' c = joined st c.
Proof.
  intros Hp Hv Hrun Hne.
  destruct (onMessage_valid_state _ _ _ _ _ _ _ _ _ _ Hp Hv Hrun) as (_ & Hm & Hs).
  split.
  - intros h. rewrite Hm. destruct (String.eqb_spec h ih) as [->|]; [|reflexivity].
    rewrite JSSetFacts.in_add by exact Nat.eqb_spec. intuition.
  - unfold joined. rewrite Hs.
    destruct (JSMap.get Nat.eqb ws (socketSwarmMap st)); [|reflexivity].
    rewrite JSMapFacts.get_set by exact Nat.eqb_spec.
    apply Nat.eqb_neq in Hne; rewrite Hne; reflexivity.
Qed.

(** X5: a valid message from a socket with no [socketSwarmMap] entry
    ([socketSwarmMap.get(ws)?.add(infohash)] does nothing) still adds it
    to the swarm, but records no membership for it. *)
Theorem onMessage_untracked_sender isOpen st ws raw data ih pid st' sends :
  tracked st ws = false ->
  JSON_parse raw = Some data -> valid_msg data ih pid ->
  onMessage JSON_parse isOpen st ws raw = Done st' sends ->
  In ws (members st' ih) /\ socketSwarmMap st' = socketSwarmMap st.
Proof.
  intros Ht Hp Hv Hrun.
  destruct (onMessage_valid_state _ _ _ _ _ _ _ _ _ _ Hp Hv Hrun) as (_ & Hm & Hs).
  unfold tracked, JSMap.has in Ht.
  destruct (JSMap.get Nat.eqb ws (socketSwarmMap st)); [discriminate|].
  split; [|exact Hs].
  rewrite Hm, String.eqb_refl. apply JSSetFacts.in_add; [exact Nat.eqb_spec | auto].
Qed.

(** X6: a valid message removes nothing: every swarm membership, every
    membership-set entry and every bound peerId survives it. *)
Theorem onMessage_removes_nothing isOpen st ws raw data ih pid st' sends :
  JSON_parse raw = Some data -> valid_msg data ih pid ->
  onMessage JSON_parse isOpen st ws raw = Done st' sends ->
  (forall c h, In c (members st h) -> In c (members st' h)) /\
  (forall c h, In h (joined st c) -> In h (joined st' c)) /\
  (forall p, JSMap.has String.eqb p (peerIdToSocket st) = true ->
             JSMap.has String.eqb p (peerIdToSocket st') = true).
Proof.
  intros Hp Hv Hrun.
  destruct (onMessage_valid_state _ _ _ _ _ _ _ _ _ _ Hp Hv Hrun) as (Hpe & Hm & Hs).
  split; [|split].
  - intros c h Hin. rewrite Hm. destruct (String.eqb_spec h ih) as [->|]; [|exact Hin].
    apply JSSetFacts.in_add; [exact Nat.eqb_spec | auto].
  - intros c h Hin. unfold joined in *. rewrite Hs.
    destruct (JSMap.get Nat.eqb ws (socketSwarmMap st)) as [hs|] eqn:Hg; [|exact Hin].
    rewrite JSMapFacts.get_set by exact Nat.eqb_spec.
    destruct (Nat.eqb_spec c ws) as [->|]; [|exact Hin].
    rewrite Hg in Hin. apply JSSetFacts.in_add; [exact String.eqb_spec | auto].
  - intros p. unfold JSMap.has. rewrite Hpe, JSMapFacts.get_set by exact String.eqb_spec.
    destruct (String.eqb p pid); [reflexivity | exact (fun H => H)].
Qed.

(** X7: in every reachable state, a message whose [toPeerId] resolves to
    no binding is sent at most once to each recipient. *)
Theorem broadcast_sends_once_each (tr : list event) isOpen ws raw data ih pid st' sends :
  JSON_parse raw = Some data -> valid_msg data ih pid ->
  (forall t, field data "toPeerId" = Some (JString t) ->
             JSMap.get String.eqb t (peerIdToSocket st') = None) ->
  onMessage JSON_parse isOpen (run JSON_parse init tr) ws raw = Done st' sends ->
  NoDup (map fst sends).
Proof.
  intros Hp Hv Hnb Hrun.
  pose proof (onMessage_swarm_nodup _ _ _ _ _ _ _
                (run_swarm_nodup _ _ tr init_swarm_nodup) Hrun) as Hn.
  rewrite (onMessage_broadcast_sends _ _ _ _ _ _ _ _ _ _ Hp Hv Hnb Hrun).
  rewrite map_map, map_id. apply NoDup_filter.
  unfold members, swarm_of. destruct (JSMap.get String.eqb ih (swarms st')) eqn:Hg;
    [|constructor].
  apply JSMapFacts.get_some_in in Hg; [exact (Hn _ _ Hg) | exact String.eqb_spec].
Qed.

(** X8: when the disconnecting connection is the only member of a swarm,
    [removeClient] deletes that swarm's entry from [swarms]. *)
Theorem last_member_leaving_deletes_swarm (tr : list event) ws h :
  lifecycle_ok JSON_parse init tr = true ->
  In ws (members (run JSON_parse init tr) h) ->
  (forall c, In c (members (run JSON_parse init tr) h) -> c = ws) ->
  JSMap.get String.eqb h (swarms (removeClient (run JSON_parse init tr) ws)) = None.
Proof.
  intros Hl Hin Hall.
  pose proof (run_consistent _ _ _ init_consistent Hl) as Hc.
  set (st := run JSON_parse init tr) in *.
  pose proof (proj1 (Hc ws h) Hin) as Hj.
  unfold joined in Hj. unfold removeClient; simpl.
  destruct (JSMap.get Nat.eqb ws (socketSwarmMap st)) as [hs|]; [|destruct Hj].
  apply fold_cleanup_deletes; [exact Hj|].
  unfold only_ws. unfold members, swarm_of in Hall.
  destruct (JSMap.get String.eqb h (swarms st)); [exact Hall | exact I].
Qed.

(** X9: in every reachable state, if at most one peerId is bound to
    [ws], [removeClient ws] leaves no peerId bound to [ws]. *)
Theorem single_identity_binding_removed (tr : list event) ws :
  length (filter (fun e => Nat.eqb (snd e) ws) (peerIdToSocket (run JSON_parse init tr))) <= 1 ->
  forall p, JSMap.get String.eqb p (peerIdToSocket (removeClient (run JSON_parse init tr) ws))
            <> Some ws.
Proof.
  intros Hone p.
  pose proof (run_peer_unique JSON_parse _ tr init_peer_unique) as Hu.
  pose proof (run_peer_keys JSON_parse _ tr init_peer_keys) as Hk.
  set (st := run JSON_parse init tr) in *.
  unfold removeClient; simpl.
  destruct (fold_left (fun acc '(pid, s) => if Nat.eqb s ws then Some pid else acc)
                      (peerIdToSocket st) None) as [d|] eqn:Hd.
  - apply scan_finds_bound in Hd as [Hdin|]; [|discriminate].
    pose proof (Hk _ _ Hdin) as Hdne. apply String.eqb_neq in Hdne. rewrite Hdne; simpl.
    rewrite JSMapFacts.get_delete by exact String.eqb_spec.
    destruct (String.eqb_spec p d) as [->|Hpd]; [discriminate|].
    intros Hg. apply JSMapFacts.get_some_in in Hg; [|exact String.eqb_spec].
    assert (2 <= length (filter (fun e => Nat.eqb (snd e) ws) (peerIdToSocket st))).
    { apply (two_distinct_in (p, ws) (d, ws));
        [apply filter_In; simpl; rewrite Nat.eqb_refl; auto
        |apply filter_In; simpl; rewrite Nat.eqb_refl; auto
        |congruence]. }
    lia.
  - intros Hg. apply JSMapFacts.get_some_in in Hg; [|exact String.eqb_spec].
    destruct (scan_some ws (peerIdToSocket st) None p Hg) as (d & Hd' & _). congruence.
Qed.

(** X10: in every reachable state, if at most one peerId is bound to
    [ws], running [removeClient ws] twice (["error"] then ["close"])
    gives the same tables as running it once. *)
Theorem single_identity_cleanup_idempotent (tr : list event) ws :
  length (filter (fun e => Nat.eqb (snd e) ws) (peerIdToSocket (run JSON_parse init tr))) <= 1 ->
  removeClient (removeClient (run JSON_parse init tr) ws) ws
  = removeClient (run JSON_parse init tr) ws.
Proof.
  intros Hone.
  pose proof (run_peer_unique JSON_parse _ tr init_peer_unique) as Hu.
  pose proof (single_identity_binding_removed tr ws Hone) as Hnone.
  set (st := run JSON_parse init tr) in *.
  apply removeClient_noop.
  - unfold removeClient; simpl.
    rewrite JSMapFacts.get_delete, Nat.eqb_refl by exact Nat.eqb_spec; reflexivity.
  - intros q Hin. apply (Hnone q).
    apply (map_get_in_some _ String.eqb_spec); [|exact Hin].
    apply (step_peer_unique JSON_parse st (EDisconnect ws)); exact Hu.
Qed.

(** X11: in every reachable state, [removeClient ws] keeps every binding
    of a peerId to another connection, in particular one that was
    repointed from [ws] to a newer connection. *)
Theorem disconnect_keeps_bindings_of_others (tr : list event) ws p c :
  JSMap.get String.eqb p (peerIdToSocket (run JSON_parse init tr)) = Some c -> c <> ws ->
  JSMap.get String.eqb p (peerIdToSocket (removeClient (run JSON_parse init tr) ws)) = Some c.
Proof.
  intros Hg Hne. apply removeClient_keeps_other_bindings; [|exact Hg|exact Hne].
  exact (run_peer_unique JSON_parse _ tr init_peer_unique).
Qed.

End Extras.

(** ** Witnesses for the further properties *)

Lemma removeClient_untracked_keeps_tables_witness :
  swarms (removeClient (run demo_parse init demo_trace) 7) = swarms (run demo_parse init demo_trace) /\
  socketSwarmMap (removeClient (run demo_parse init demo_trace) 7)
  = socketSwarmMap (run demo_parse init demo_trace).
Proof.
  apply (removeClient_untracked_keeps_tables (run demo_parse init demo_trace) 7).
  vm_compute; reflexivity.
Defined.

Lemma removeClient_isolates_others_witness :
  (forall h, In 2 (members (removeClient (run demo_parse init demo_trace) 1) h) <->
             In 2 (members (run demo_parse init demo_trace) h)) /\
  joined (removeClient (run demo_parse init demo_trace) 1) 2 = joined (run demo_parse init demo_trace) 2.
Proof.
  apply (removeClient_isolates_others (run demo_parse init demo_trace) 1 2). discriminate.
Defined.

(** Connection [1] leaves; connection [4] connects and joins ["h1"];
    connection [2] then broadcasts on ["h1"]. *)
Lemma disconnected_never_broadcast_target_witness :
  ~ In 1 (map fst (snd (step demo_parse
           (run demo_parse init (demo_trace ++ [EDisconnect 1; EConnect 4; EMessage 4 "A1" all_open]))
           (EMessage 2 "B1" all_open)))).
Proof.
  apply (disconnected_never_broadcast_target demo_parse demo_trace
           [EConnect 4; EMessage 4 "A1" all_open] 1 all_open 2 "B1"
           (sig_msg "h1" "pB" None) "h1" "pB"
           (fst (step demo_parse
                  (run demo_parse init (demo_trace ++ [EDisconnect 1; EConnect 4; EMessage 4 "A1" all_open]))
                  (EMessage 2 "B1" all_open)))).
  - vm_compute; reflexivity.
  - intros [H|[H|[]]]; discriminate H.
  - reflexivity.
  - unfold valid_msg; repeat split; [discriminate | discriminate].
  - intros t Ht; vm_compute in Ht; discriminate Ht.
  - vm_compute; reflexivity.
Defined.

Lemma onMessage_isolates_others_witness :
  let st' := fst (step demo_parse (run demo_parse init demo_trace) (EMessage 3 "A1" all_open)) in
  (forall h, In 2 (members st' h) <-> In 2 (members (run demo_parse init demo_trace) h)) /\
  joined st' 2 = joined (run demo_parse init demo_trace) 2.
Proof.
  intros st'.
  apply (onMessage_isolates_others demo_parse all_open (run demo_parse init demo_trace) 3 "A1"
           (sig_msg "h1" "pA" None) "h1" "pA" st'
           (snd (step demo_parse (run demo_parse init demo_trace) (EMessage 3 "A1" all_open))) 2).
  - reflexivity.
  - unfold valid_msg; repeat split; [discriminate | discriminate].
  - vm_compute; reflexivity.
  - discriminate.
Defined.

(** Socket [7] never ran its connection handler. *)
Lemma onMessage_untracked_sender_witness :
  let st' := fst (step demo_parse (run demo_parse init demo_trace) (EMessage 7 "A1" all_open)) in
  In 7 (members st' "h1") /\ socketSwarmMap st' = socketSwarmMap (run demo_parse init demo_trace).
Proof.
  intros st'.
  apply (onMessage_untracked_sender demo_parse all_open (run demo_parse init demo_trace) 7 "A1"
           (sig_msg "h1" "pA" None) "h1" "pA" st'
           (snd (step demo_parse (run demo_parse init demo_trace) (EMessage 7 "A1" all_open)))).
  - vm_compute; reflexivity.
  - reflexivity.
  - unfold valid_msg; repeat split; [discriminate | discriminate].
  - vm_compute; reflexivity.
Defined.

Lemma onMessage_removes_nothing_witness :
  let st := run demo_parse init demo_trace in
  let st' := fst (step demo_parse st (EMessage 3 "CtoB" all_open)) in
  (forall c h, In c (members st h) -> In c (members st' h)) /\
  (forall c h, In h (joined st c) -> In h (joined st' c)) /\
  (forall p, JSMap.has String.eqb p (peerIdToSocket st) = true ->
             JSMap.has String.eqb p (peerIdToSocket st') = true).
Proof.
  intros st st'.
  apply (onMessage_removes_nothing demo_parse all_open st 3 "CtoB"
           (sig_msg "h2" "pC" (Some "pB")) "h2" "pC" st'
           (snd (step demo_parse st (EMessage 3 "CtoB" all_open)))).
  - reflexivity.
  - unfold valid_msg; repeat split; [discriminate | discriminate].
  - vm_compute; reflexivity.
Defined.

(** Connection [3] broadcasts on ["h1"], reaching [1] and [2] once each. *)
Lemma broadcast_sends_once_each_witness :
  NoDup (map fst (snd (step demo_parse (run demo_parse init demo_trace) (EMessage 3 "A1" all_open)))).
Proof.
  apply (broadcast_sends_once_each demo_parse demo_trace all_open 3 "A1"
           (sig_msg "h1" "pA" None) "h1" "pA"
           (fst (step demo_parse (run demo_parse init demo_trace) (EMessage 3 "A1" all_open)))).
  - reflexivity.
  - unfold valid_msg; repeat split; [discriminate | discriminate].
  - intros t Ht; vm_compute in Ht; discriminate Ht.
  - vm_compute; reflexivity.
Defined.

(** Connection [3] alone joins ["h2"], then leaves. *)
Lemma last_member_leaving_deletes_swarm_witness :
  JSMap.get String.eqb "h2"
    (swarms (removeClient (run demo_parse init (demo_trace ++ [EMessage 3 "CtoB" all_open])) 3))
  = None.
Proof.
  apply last_member_leaving_deletes_swarm.
  - vm_compute; reflexivity.
  - vm_compute; left; reflexivity.
  - intros c H; vm_compute in H; destruct H as [H|[]]; symmetry; exact H.
Defined.

Lemma single_identity_binding_removed_witness :
  JSMap.get String.eqb "pA" (peerIdToSocket (removeClient (run demo_parse init demo_trace) 1))
  <> Some 1.
Proof.
  apply single_identity_binding_removed. vm_compute; lia.
Defined.

Lemma single_identity_cleanup_idempotent_witness :
  removeClient (removeClient (run demo_parse init demo_trace) 1) 1
  = removeClient (run demo_parse init demo_trace) 1.
Proof.
  apply single_identity_cleanup_idempotent. vm_compute; lia.
Defined.

(** ["pA"] is repointed from [1] to [3]; [1] then leaves. *)
Lemma disconnect_keeps_bindings_of_others_witness :
  JSMap.get String.eqb "pA"
    (peerIdToSocket (removeClient (run demo_parse init (demo_trace ++ [EMessage 3 "A1" all_open])) 1))
  = Some 3.
Proof.
  apply disconnect_keeps_bindings_of_others.
  - vm_compute; reflexivity.
  - discriminate.
Defined.
